(** * golib: the [apperror] error model and the two [id] wrappers

    A shallow embedding of
      - [src/apperror/apperror.go]  (module [apperror]),
      - [src/id/id.go]              (module [id]),
      - [src/pkg/id/id.go]          (module [pkg_id]),
    together with the parts of the Go standard library ([errors.As],
    [strconv.Itoa], map assignment) and of [github.com/google/uuid]
    ([Parse], [MustParse], [String], [New]) that these files call.

    Conventions.
      - A Go [int] is a [Z]; no arithmetic is done on it in these packages.
      - A Go [string] is a [string] (a sequence of bytes).
      - A run-time panic is the [Panic] outcome.
      - A Go [map] value is a reference: [None] is the nil map, [Some l] refers
        to the map stored at [l] in a heap of maps.  Copying a struct copies
        the reference, not the map.
      - A value of interface type [error] is [option error_value]: [None] is
        the nil interface. *)

From Stdlib Require Import ZArith String Ascii List Lia Bool DecimalString.
From Stdlib Require DecimalZ DecimalPos.
From stdpp Require Import base option gmap strings.
Import ListNotations.

Local Open Scope string_scope.
Local Open Scope Z_scope.

(** ** Outcomes: a value or a panic *)

Inductive outcome (A : Type) : Type :=
| Val (a : A)
| Panic (msg : string).
Arguments Val {A} a.
Arguments Panic {A} msg.

Definition nil_dereference : string :=
  "runtime error: invalid memory address or nil pointer dereference".
Definition nil_map_assignment : string :=
  "assignment to entry in nil map".

(** ** The heap of maps, and a state-and-panic monad over it *)

Abbreviation loc := positive (only parsing).
Abbreviation heap := (gmap positive (gmap string string)) (only parsing).

Definition M (A : Type) : Type := heap -> outcome (A * heap).

Definition ret {A} (a : A) : M A := fun h => Val (a, h).

Definition bind {A B} (m : M A) (k : A -> M B) : M B :=
  fun h => match m h with
           | Val (a, h') => k a h'
           | Panic msg => Panic msg
           end.

Notation "'do' x <- m ; k" := (bind m (fun x => k))
  (at level 10, x name, m at level 100, k at level 200).

(** [make(map[string]string)]: a fresh, empty map. *)
Definition make_map : M loc :=
  fun h => let l := fresh (dom h) in Val (l, <[l := ∅]> h).

(** [m[k] = v].  Assigning into the nil map panics.  A reference always
    denotes a live map in Go, so the last branch is not reachable from a
    heap built by [make_map]. *)
Definition map_assign (m : option loc) (k v : string) : M unit :=
  fun h => match m with
           | None => Panic nil_map_assignment
           | Some l =>
               match h !! l with
               | Some entries => Val (tt, <[l := <[k := v]> entries]> h)
               | None => Panic "map reference outside the heap"
               end
           end.

(** Reading [m[k]]: the nil map reads as empty. *)
Definition map_index (h : heap) (m : option loc) (k : string) : option string :=
  match m with
  | None => None
  | Some l => match h !! l with
              | Some entries => entries !! k
              | None => None
              end
  end.

(** [strconv.Itoa]: the decimal text of an [int]. *)
Definition Itoa (i : Z) : string := NilZero.string_of_int (Z.to_int i).

(** Reading a decimal text back, the inverse direction of [Itoa]. *)
Definition decimal_value (s : string) : option Z :=
  option_map Z.of_int (NilZero.int_of_string s).

Module apperror.

(** [type Category int] with its [iota] constants. *)
Definition Category : Type := Z.

Definition ErrValidation : Category := 0.
Definition ErrInternal : Category := 1.
Definition ErrNotFound : Category := 2.
Definition ErrMethoNotAllowed : Category := 3.
Definition ErrSecurity : Category := 4.
Definition ErrForbidden : Category := 5.
Definition ErrUnauthorized : Category := 6.

(** The enumeration as the [const] block lists it. *)
Definition categories : list Category :=
  [ErrValidation; ErrInternal; ErrNotFound; ErrMethoNotAllowed;
   ErrSecurity; ErrForbidden; ErrUnauthorized].

(** [net/http] status constants used by the constructors. *)
Definition StatusBadRequest : Z := 400.
Definition StatusUnauthorized : Z := 401.
Definition StatusForbidden : Z := 403.
Definition StatusNotFound : Z := 404.
Definition StatusInternalServerError : Z := 500.

Module Code.
Record t : Type := mk { Category : Category; Internal : Z }.
End Code.

Module AppError.
(** The struct, over the type [E] of non-nil error values its [Err]
    field may hold. *)
Record t (E : Type) : Type := mk {
  Err : option E;
  Status : Z;
  Code : Code.t;
  Message : string;
  Metadata : option loc
}.
Arguments mk {E}.
Arguments Err {E}.
Arguments Status {E}.
Arguments Code {E}.
Arguments Message {E}.
Arguments Metadata {E}.
End AppError.

(** The non-nil values of interface type [error] considered here:
    - [errorString]: what [errors.New] returns; no [Unwrap] method;
    - [wrapError]: what [fmt.Errorf] returns for a format with one [%w];
      its [Error] is the stored text and its [Unwrap] the wrapped error;
    - [AppErrorPtr]: a [*AppError], [None] being the nil pointer held in
      the interface;
    - [AppErrorVal]: an [AppError] held by value (the methods have value
      receivers, so both [AppError] and [*AppError] implement [error]). *)
#[warnings="-register-all"]
Inductive error_value : Type :=
| errorString (s : string)
| wrapError (msg : string) (err : error_value)
| AppErrorPtr (p : option (AppError.t error_value))
| AppErrorVal (v : AppError.t error_value).

Abbreviation error := (option error_value) (only parsing).
Abbreviation AppErrorT := (AppError.t error_value) (only parsing).

(** [func (err AppError) Error() string { return err.Err.Error() }],
    over the [Error] method of whatever [Err] holds.  Calling a method on
    the nil interface panics. *)
Definition AppError_Error {E} (Error : E -> outcome string)
    (err : AppError.t E) : outcome string :=
  match AppError.Err err with
  | Some cause => Error cause
  | None => Panic nil_dereference
  end.

(** [e.Error()] for a non-nil interface value [e]: dynamic dispatch.
    Through a nil [*AppError] the value receiver cannot be loaded. *)
Fixpoint Error (e : error_value) : outcome string :=
  match e with
  | errorString s => Val s
  | wrapError msg _ => Val msg
  | AppErrorPtr None => Panic nil_dereference
  | AppErrorPtr (Some a) => AppError_Error Error a
  | AppErrorVal a => AppError_Error Error a
  end.

(** [func (err AppError) Unwrap() error { return err.Err }] *)
Definition Unwrap (err : AppErrorT) : error := AppError.Err err.

(** [NewAppError]: both branches allocate the metadata map; the second
    leaves [Internal] at its zero value.  [Status] and [Message] are not
    mentioned in either literal. *)
Definition NewAppError (err : error) (category : Category)
    (internalCode : option Z) : M AppErrorT :=
  match internalCode with
  | Some n =>
      do metadata <- make_map;
      ret (AppError.mk err 0 (Code.mk category n) "" (Some metadata))
  | None =>
      do metadata <- make_map;
      ret (AppError.mk err 0 (Code.mk category 0) "" (Some metadata))
  end.

(** [withStatus]: the literal sets [Err], [Code.Internal] and [Message];
    [Status], [Code.Category] and [Metadata] keep their zero values. *)
Definition withStatus (internalCode : Z) (err : error) : outcome AppErrorT :=
  match err with
  | None => Panic nil_dereference
  | Some e =>
      match Error e with
      | Val text => Val (AppError.mk err 0 (Code.mk 0 internalCode) text None)
      | Panic msg => Panic msg
      end
  end.

Definition BadRequest (err : error) : outcome AppErrorT :=
  withStatus StatusBadRequest err.
Definition NotFound (err : error) : outcome AppErrorT :=
  withStatus StatusNotFound err.
Definition Unauthorized (err : error) : outcome AppErrorT :=
  withStatus StatusUnauthorized err.
Definition Forbidden (err : error) : outcome AppErrorT :=
  withStatus StatusForbidden err.
Definition InternalServerError (err : error) : outcome AppErrorT :=
  withStatus StatusInternalServerError err.

(** The builder methods have value receivers: [err] is a copy of the
    struct, its [Metadata] field the same map reference.  [return &err]
    is the address of that copy, modelled as the copy itself. *)
Definition WithField (err : AppErrorT) (value : string) : M AppErrorT :=
  do _ <- map_assign (AppError.Metadata err) "field" value;
  ret err.

Definition WithRow (err : AppErrorT) (row : Z) : M AppErrorT :=
  do _ <- map_assign (AppError.Metadata err) "row" (Itoa row);
  ret err.

Definition WithInfo (err : AppErrorT) (info : string) : M AppErrorT :=
  do _ <- map_assign (AppError.Metadata err) "info" info;
  ret err.

(** [errors.As(err, &appErr)] with [appErr] of type [*AppError], for a
    non-nil [err]: the loop of the standard library.  At each error it
    first tests whether the dynamic type is assignable to [*AppError]
    (only [AppErrorPtr] is, a nil pointer included), then looks for an
    [As] method (none of these types has one), then follows
    [Unwrap() error], stopping when there is no such method or it returns
    nil.  [Some p] is the pointer stored into [appErr]; [None] is [false]. *)
Fixpoint errors_As (err : error_value) : option (option AppErrorT) :=
  match err with
  | AppErrorPtr p => Some p
  | errorString _ => None
  | wrapError _ inner => errors_As inner
  | AppErrorVal v =>
      match AppError.Err v with
      | Some inner => errors_As inner
      | None => None
      end
  end.

(** [IsCategory]: [errors.As] answers [false] on the nil interface;
    [appErr.Code.Category] dereferences the pointer found. *)
Definition IsCategory (srcErr : error) (category : Category) : outcome bool :=
  match srcErr with
  | None => Val false
  | Some e =>
      match errors_As e with
      | Some (Some appErr) =>
          Val (Code.Category (AppError.Code appErr) =? category)
      | Some None => Panic nil_dereference
      | None => Val false
      end
  end.

(** [func (c Category) String() string]: the [switch], case by case. *)
Definition String (c : Category) : string :=
  if c =? ErrValidation then "ValidationError"
  else if c =? ErrInternal then "InternalError"
  else if c =? ErrNotFound then "NotFouncError"
  else if c =? ErrMethoNotAllowed then "MethoNotAllowedError"
  else if c =? ErrForbidden then "ForbiddenError"
  else if c =? ErrUnauthorized then "UnauthorizedError"
  else "UnkownCategoryError".

(** *** The unwrap chain, for stating what [IsCategory] finds

    [unwrap_chain e] lists [e], then what [e.Unwrap()] returns, and so on
    while there is an [Unwrap() error] method returning non-nil.  Unlike
    [errors_As] it does not stop at an [AppError]. *)
Fixpoint unwrap_chain (e : error_value) : list error_value :=
  e :: match e with
       | errorString _ => []
       | wrapError _ inner => unwrap_chain inner
       | AppErrorPtr None => []
       | AppErrorPtr (Some a) | AppErrorVal a =>
           match AppError.Err a with
           | Some inner => unwrap_chain inner
           | None => []
           end
       end.

(** The struct of a value that is an [AppError], behind a pointer or held
    directly. *)
Definition as_AppError (e : error_value) : option AppErrorT :=
  match e with
  | AppErrorPtr (Some a) => Some a
  | AppErrorVal a => Some a
  | _ => None
  end.

(** The pointer of a value whose dynamic type is [*AppError]. *)
Definition as_AppErrorPtr (e : error_value) : option (option AppErrorT) :=
  match e with
  | AppErrorPtr p => Some p
  | _ => None
  end.

(** The first element of [l] on which [f] is defined, with its image. *)
Fixpoint first_some {A B} (f : A -> option B) (l : list A) : option B :=
  match l with
  | [] => None
  | x :: rest => match f x with
                 | Some y => Some y
                 | None => first_some f rest
                 end
  end.

(** [IsCategory] as the specification words it: the category test on the
    first [AppError] of the chain, [false] when there is none. *)
Definition IsCategory_first_AppError (srcErr : error) (category : Category)
    : outcome bool :=
  match srcErr with
  | None => Val false
  | Some e =>
      match first_some as_AppError (unwrap_chain e) with
      | Some a => Val (Code.Category (AppError.Code a) =? category)
      | None => Val false
      end
  end.

(** [fmt.Errorf("...: %w", err)] applied once per text of [msgs], the
    first text outermost. *)
Definition wrap_all (msgs : list string) (e : error_value) : error_value :=
  fold_right wrapError e msgs.

(** The categories [String] has a [case] for. *)
Definition named_categories : list Category :=
  [ErrValidation; ErrInternal; ErrNotFound; ErrMethoNotAllowed;
   ErrForbidden; ErrUnauthorized].


End apperror.

(** ** [github.com/google/uuid], as far as the [id] packages use it *)

Module uuid.

(** [type UUID [16]byte]: sixteen bytes, each in [0, 256). *)
Definition UUID : Type := list Z.

Definition is_byte (b : Z) : bool := (0 <=? b) && (b <? 256).
Definition wf (u : UUID) : bool := (length u =? 16)%nat && forallb is_byte u.

(** Every byte value, for case analyses over a byte. *)
Definition all_bytes : list Z := map Z.of_nat (seq 0 256).

(** [var Nil UUID]: all zero. *)
Definition Nil : UUID := repeat 0 16.

(** The text [Nil.String()] evaluates to. *)
Definition nil_text : string := "00000000-0000-0000-0000-000000000000".

(** [s[i]] on a string; every use below is within the checked length. *)
Definition byte_at (s : string) (i : nat) : ascii :=
  match String.get i s with
  | Some c => c
  | None => "000"%char
  end.

(** [encoding/hex]: [hextable] and [Encode]. *)
Definition hextable : string := "0123456789abcdef".

Fixpoint hex_Encode (src : list Z) : string :=
  match src with
  | [] => EmptyString
  | v :: rest =>
      String.String (byte_at hextable (Z.to_nat (Z.shiftr v 4)))
        (String.String (byte_at hextable (Z.to_nat (Z.land v 15)))
           (hex_Encode rest))
  end.

(** [u[lo:hi]] *)
Definition slice (u : list Z) (lo hi : nat) : list Z :=
  firstn (hi - lo) (skipn lo u).

(** [func (uuid UUID) String() string], through [encodeHex]:
    the form xxxxxxxx-xxxx-xxxx-xxxx-xxxxxxxxxxxx. *)
Definition String (u : UUID) : string :=
  hex_Encode (slice u 0 4) ++ "-" ++
  hex_Encode (slice u 4 6) ++ "-" ++
  hex_Encode (slice u 6 8) ++ "-" ++
  hex_Encode (slice u 8 10) ++ "-" ++
  hex_Encode (slice u 10 16).

(** [xvalues]: the value of a hexadecimal digit, 255 for any other byte. *)
Definition xvalue (c : ascii) : Z :=
  let n := Z.of_N (N_of_ascii c) in
  if (48 <=? n) && (n <=? 57) then n - 48
  else if (97 <=? n) && (n <=? 102) then n - 87
  else if (65 <=? n) && (n <=? 70) then n - 55
  else 255.

(** [xtob]: [(b1 << 4) | b2, b1 != 255 && b2 != 255] on bytes. *)
Definition xtob (x1 x2 : ascii) : Z * bool :=
  let b1 := xvalue x1 in
  let b2 := xvalue x2 in
  (Z.lor (Z.land (Z.shiftl b1 4) 255) b2,
   negb (b1 =? 255) && negb (b2 =? 255)).

(** The decoding loop of [Parse] over the offsets of the byte pairs; it
    returns at the first pair that is not hexadecimal. *)
Fixpoint decode_at (s : string) (offsets : list nat) : UUID + string :=
  match offsets with
  | [] => inl []
  | x :: rest =>
      let '(v, ok) := xtob (byte_at s x) (byte_at s (x + 1)) in
      if ok then
        match decode_at s rest with
        | inl u => inl (v :: u)
        | inr e => inr e
        end
      else inr "invalid UUID format"
  end.

Definition dash : ascii := "-"%char.

(** The tail of [Parse], on a string of the 36 byte form. *)
Definition parse_hyphenated (s : string) : UUID + string :=
  if negb (Ascii.eqb (byte_at s 8) dash) || negb (Ascii.eqb (byte_at s 13) dash)
     || negb (Ascii.eqb (byte_at s 18) dash) || negb (Ascii.eqb (byte_at s 23) dash)
  then inr "invalid UUID format"
  else decode_at s [0; 2; 4; 6; 9; 11; 14; 16; 19; 21; 24; 26; 28; 30; 32; 34]%nat.

(** ASCII lower case, for [strings.EqualFold] against "urn:uuid:". *)
Definition to_lower (c : ascii) : ascii :=
  let n := N_of_ascii c in
  if (65 <=? n)%N && (n <=? 90)%N then ascii_of_N (n + 32) else c.

Fixpoint lower (s : string) : string :=
  match s with
  | EmptyString => EmptyString
  | String.String c rest => String.String (to_lower c) (lower rest)
  end.

(** [func Parse(s string) (UUID, error)]: [inl] is a nil error, [inr] the
    text of the error (the partly filled UUID returned with it is dropped;
    [MustParse] does not read it). *)
Definition Parse (s : string) : UUID + string :=
  match String.length s with
  | 36%nat => parse_hyphenated s
  | 45%nat =>
      if String.eqb (lower (substring 0 9 s)) "urn:uuid:"
      then parse_hyphenated (substring 9 36 s)
      else inr "invalid urn prefix"
  | 38%nat => parse_hyphenated (substring 1 37 s)
  | 32%nat =>
      decode_at s [0; 2; 4; 6; 8; 10; 12; 14; 16; 18; 20; 22; 24; 26; 28; 30]%nat
  | _ => inr "invalid UUID length"
  end.

(** [MustParse]: [Parse], panicking on an error. *)
Definition MustParse (s : string) : outcome UUID :=
  match Parse s with
  | inl u => Val u
  | inr e => Panic ("uuid: Parse(" ++ s ++ "): " ++ e)
  end.

(** [New], from the sixteen bytes [rnd] read from the random source
    (taken to deliver them; [New] panics when it does not):
    [uuid[6] = (uuid[6] & 0x0f) | 0x40], [uuid[8] = (uuid[8] & 0x3f) | 0x80]. *)
Definition New (rnd : list Z) : UUID :=
  let u6 := Z.lor (Z.land (nth 6 rnd 0) 15) 64 in
  let u := <[6%nat := u6]> rnd in
  let u8 := Z.lor (Z.land (nth 8 u 0) 63) 128 in
  <[8%nat := u8]> u.

(** Every byte value as a character, for case analyses over a character. *)
Definition all_ascii : list ascii := map ascii_of_nat (seq 0 256).

(** The digits [hex.Encode] writes. *)
Definition hex_digits : list ascii := list_ascii_of_string hextable.

(** The positions of the four dashes in the 36 byte form. *)
Definition dash_positions : list nat := [8; 13; 18; 23]%nat.

(** The three other forms of text [Parse] reads for a UUID, beside
    [String]. *)
Definition urn_form (u : UUID) : string := "urn:uuid:" ++ String u.
Definition brace_form (u : UUID) : string := "{" ++ String u ++ "}".
Definition raw_form (u : UUID) : string := hex_Encode u.


End uuid.

(** ** [src/id/id.go] *)

Module id.

(** [type Id uuid.UUID].  A [*Id] result is [Some] of the value pointed
    to, or [None] for nil; an [error] result made by [errors.New] is given
    by its text. *)
Definition Id : Type := uuid.UUID.

(** [NewId], from the random bytes [uuid.New] draws. *)
Definition NewId (rnd : list Z) : Id := uuid.New rnd.

Definition ToString (id : Id) : string := uuid.String id.

Definition ToUUID (id : Id) : uuid.UUID := id.

Definition FromString (s : string) : outcome (option Id * option string) :=
  if String.eqb s "" || String.eqb s (uuid.String uuid.Nil)
  then Val (None, Some "string s cannot be empty")
  else match uuid.MustParse s with
       | Val u => Val (Some u, None)
       | Panic msg => Panic msg
       end.

End id.

(** ** [src/pkg/id/id.go] *)

Module pkg_id.

Definition Id : Type := uuid.UUID.

(** [return &Id{}]: the zero array. *)
Definition NewId : Id := repeat 0 16.

Definition ToString (id : Id) : string := uuid.String id.

Definition ToUUID (id : Id) : uuid.UUID := id.

Definition FromString (s : string) : outcome (option Id * option string) :=
  if String.eqb s ""
  then Val (None, Some "string s cannot be empty")
  else match uuid.MustParse s with
       | Val u => Val (Some u, None)
       | Panic msg => Panic msg
       end.

End pkg_id.

(** * Properties of [apperror] *)

Section apperror_properties.
Import apperror.

Implicit Types (h : gmap positive (gmap string string)).
Implicit Types (e : error_value) (a : AppErrorT) (c : Category).

(** ** Heap steps *)

Lemma make_map_fresh h :
  h !! fresh (dom h) = None.
Proof. apply not_elem_of_dom, is_fresh. Qed.

Lemma map_assign_live h l entries k v :
  h !! l = Some entries ->
  map_assign (Some l) k v h = Val (tt, <[l := <[k := v]> entries]> h).
Proof. intros Hl. unfold map_assign. now rewrite Hl. Qed.

Lemma map_assign_nil h k v :
  map_assign None k v h = Panic nil_map_assignment.
Proof. reflexivity. Qed.

Lemma map_index_assigned h l entries k v :
  map_index (<[l := <[k := v]> entries]> h) (Some l) k = Some v.
Proof. unfold map_index. rewrite lookup_insert_eq. apply lookup_insert_eq. Qed.

Lemma map_index_live h l entries k :
  h !! l = Some entries -> map_index h (Some l) k = entries !! k.
Proof. intros Hl. unfold map_index. now rewrite Hl. Qed.

(** ** Builder methods on a live map *)

Lemma WithField_live h a l entries v :
  AppError.Metadata a = Some l -> h !! l = Some entries ->
  WithField a v h = Val (a, <[l := <["field" := v]> entries]> h).
Proof.
  intros Hm Hl. unfold WithField, bind. rewrite Hm.
  now rewrite (map_assign_live _ _ _ _ _ Hl).
Qed.

Lemma WithRow_live h a l entries row :
  AppError.Metadata a = Some l -> h !! l = Some entries ->
  WithRow a row h = Val (a, <[l := <["row" := Itoa row]> entries]> h).
Proof.
  intros Hm Hl. unfold WithRow, bind. rewrite Hm.
  now rewrite (map_assign_live _ _ _ _ _ Hl).
Qed.

Lemma WithInfo_live h a l entries v :
  AppError.Metadata a = Some l -> h !! l = Some entries ->
  WithInfo a v h = Val (a, <[l := <["info" := v]> entries]> h).
Proof.
  intros Hm Hl. unfold WithInfo, bind. rewrite Hm.
  now rewrite (map_assign_live _ _ _ _ _ Hl).
Qed.

(** ** Constructors *)

Lemma withStatus_Val n e text :
  Error e = Val text ->
  withStatus n (Some e) = Val (AppError.mk (Some e) 0 (Code.mk 0 n) text None).
Proof. intros He. unfold withStatus. now rewrite He. Qed.

Lemma NewAppError_run h (cause : error) c (internalCode : option Z) :
  NewAppError cause c internalCode h =
    Val (AppError.mk cause 0 (Code.mk c (default 0 internalCode)) ""
           (Some (fresh (dom h))),
         <[fresh (dom h) := ∅]> h).
Proof. destruct internalCode; reflexivity. Qed.

(** C5: [NewAppError cause c n] returns, on every heap, an [AppError]
    whose [Code.Category] is [c], whose [Code.Internal] is [n] when given
    and zero otherwise, whose [Err] is [cause], whose [Status] and
    [Message] are zero-valued, and whose [Metadata] is a non-nil reference
    to a newly allocated (not previously live) empty map. *)
Theorem NewAppError_fields h (cause : error) c (internalCode : option Z) :
  exists a h' l,
    NewAppError cause c internalCode h = Val (a, h')
    /\ Code.Category (AppError.Code a) = c
    /\ Code.Internal (AppError.Code a)
         = match internalCode with Some n => n | None => 0 end
    /\ AppError.Err a = cause
    /\ AppError.Status a = 0
    /\ AppError.Message a = ""
    /\ AppError.Metadata a = Some l
    /\ h !! l = None
    /\ h' !! l = Some ∅.
Proof.
  eexists _, _, (fresh (dom h)). rewrite NewAppError_run.
  repeat split; simpl.
  - apply make_map_fresh.
  - apply lookup_insert_eq.
Qed.

(** C1, evaluated on the code: for a cause made by [errors.New] with any
    text [s], each convenience constructor returns an [AppError] whose
    [Status] is 0; the HTTP code (400, 404, 401, 403, 500) is stored in
    [Code.Internal].  [Message] is [s], [Code.Category] is zero and
    [Metadata] is the nil map. *)
Theorem convenience_constructors_Status_zero (s : string) :
  BadRequest (Some (errorString s))
    = Val (AppError.mk (Some (errorString s)) 0 (Code.mk 0 400) s None)
  /\ NotFound (Some (errorString s))
    = Val (AppError.mk (Some (errorString s)) 0 (Code.mk 0 404) s None)
  /\ Unauthorized (Some (errorString s))
    = Val (AppError.mk (Some (errorString s)) 0 (Code.mk 0 401) s None)
  /\ Forbidden (Some (errorString s))
    = Val (AppError.mk (Some (errorString s)) 0 (Code.mk 0 403) s None)
  /\ InternalServerError (Some (errorString s))
    = Val (AppError.mk (Some (errorString s)) 0 (Code.mk 0 500) s None).
Proof. repeat split. Qed.

(** C2, evaluated on the code: on the [AppError] each convenience
    constructor returns for a plain cause, [WithField], [WithRow] and
    [WithInfo] panic on every heap with an assignment into the nil map. *)
Theorem With_panics_after_convenience_constructor
    (s value info : string) (row : Z) h :
  Forall
    (fun ctor : error -> outcome AppErrorT =>
       exists a,
         ctor (Some (errorString s)) = Val a
         /\ WithField a value h = Panic nil_map_assignment
         /\ WithRow a row h = Panic nil_map_assignment
         /\ WithInfo a info h = Panic nil_map_assignment)
    [BadRequest; NotFound; Unauthorized; Forbidden; InternalServerError].
Proof.
  repeat constructor; eexists; (split; [reflexivity |]); repeat split.
Qed.

(** C4: for the [AppError] [a] that [NewAppError] returns on any heap and
    any arguments, each of [WithField v], [WithRow row] and [WithInfo v]
    run next returns a copy [a2] holding the same map reference as [a],
    and in the resulting heap the map read through the original [a] has
    the new entry ("field" to [v], "row" to the decimal text of [row],
    "info" to [v]). *)
Theorem With_mutates_shared_Metadata h (cause : error) c
    (internalCode : option Z) (v : string) (row : Z) :
  exists a h1,
    NewAppError cause c internalCode h = Val (a, h1)
    /\ (exists a2 h2,
          WithField a v h1 = Val (a2, h2)
          /\ AppError.Metadata a2 = AppError.Metadata a
          /\ map_index h1 (AppError.Metadata a) "field" = None
          /\ map_index h2 (AppError.Metadata a) "field" = Some v)
    /\ (exists a2 h2,
          WithRow a row h1 = Val (a2, h2)
          /\ AppError.Metadata a2 = AppError.Metadata a
          /\ map_index h1 (AppError.Metadata a) "row" = None
          /\ map_index h2 (AppError.Metadata a) "row" = Some (Itoa row))
    /\ (exists a2 h2,
          WithInfo a v h1 = Val (a2, h2)
          /\ AppError.Metadata a2 = AppError.Metadata a
          /\ map_index h1 (AppError.Metadata a) "info" = None
          /\ map_index h2 (AppError.Metadata a) "info" = Some v).
Proof.
  eexists _, _. rewrite NewAppError_run. split; [reflexivity |].
  pose proof (lookup_insert_eq h (fresh (dom h)) (∅ : gmap string string)) as Hl.
  repeat split; eexists _, _;
    (split; [ first [ eapply WithField_live | eapply WithRow_live
                    | eapply WithInfo_live ]; [reflexivity | exact Hl] |]);
    (split; [reflexivity |]);
    (split; [ apply (map_index_live _ _ _ _ Hl)
            | apply map_index_assigned ]).
Qed.

(** C6, evaluated on the code: [ErrSecurity] is one of the declared
    categories, yet [String] has no case for it and returns for it the
    same fallback text as for the undeclared value 7; the six other
    declared categories get six distinct texts of their own. *)
Theorem String_Security_is_fallback :
  In ErrSecurity categories
  /\ String ErrSecurity = "UnkownCategoryError"
  /\ String 7 = "UnkownCategoryError"
  /\ map String [ErrValidation; ErrInternal; ErrNotFound;
                 ErrMethoNotAllowed; ErrForbidden; ErrUnauthorized]
     = ["ValidationError"; "InternalError"; "NotFouncError";
        "MethoNotAllowedError"; "ForbiddenError"; "UnauthorizedError"].
Proof. repeat split. simpl. tauto. Qed.

(** C7: for every [AppError] whose [Err] holds a (non-nil) cause,
    whatever its [Status], [Code], [Message] and [Metadata], [Error]
    gives exactly what [Error] of the cause gives (the same text, or the
    same panic), called on the struct or through a [*AppError] held as an
    [error]; and [Unwrap] returns the cause. *)
Theorem Error_delegates_to_cause (cause : error_value) (status : Z)
    (code : Code.t) (message : string) (metadata : option positive) :
  AppError_Error Error (AppError.mk (Some cause) status code message metadata)
    = Error cause
  /\ Error (AppErrorPtr
              (Some (AppError.mk (Some cause) status code message metadata)))
    = Error cause
  /\ Unwrap (AppError.mk (Some cause) status code message metadata)
    = Some cause.
Proof. repeat split. Qed.

(** C10: [ErrValidation] is the zero value of [Category], and for every
    cause whose [Error] returns a text, each of the five convenience
    constructors returns an [AppError] [a] for which
    [IsCategory a ErrValidation] is [true]. *)
Theorem convenience_constructors_are_Validation e (text : string) :
  Error e = Val text ->
  ErrValidation = 0
  /\ Forall
       (fun ctor : error -> outcome AppErrorT =>
          exists a,
            ctor (Some e) = Val a
            /\ IsCategory (Some (AppErrorPtr (Some a))) ErrValidation
               = Val true)
       [BadRequest; NotFound; Unauthorized; Forbidden; InternalServerError].
Proof.
  intros He. split; [reflexivity |].
  repeat constructor;
    (eexists; split; [apply (withStatus_Val _ _ _ He) | reflexivity]).
Qed.

(** ** Classification *)

(** Induction over error values, reaching under the [Err] field of an
    [AppError] held by pointer or by value. *)
Lemma error_value_chain_ind (P : error_value -> Prop) :
  (forall s, P (errorString s)) ->
  (forall msg inner, P inner -> P (wrapError msg inner)) ->
  (forall p,
      (forall a inner, p = Some a -> AppError.Err a = Some inner -> P inner) ->
      P (AppErrorPtr p)) ->
  (forall v,
      (forall inner, AppError.Err v = Some inner -> P inner) ->
      P (AppErrorVal v)) ->
  forall e, P e.
Proof.
  intros Hs Hw Hp Hv. fix IH 1. intros [s | msg inner | p | v].
  - apply Hs.
  - apply Hw, IH.
  - apply Hp. destruct p as [[[inner' |] ? ? ? ?] |]; intros a inner Ha He.
    + injection Ha as <-. injection He as <-. apply IH.
    + injection Ha as <-. discriminate He.
    + discriminate Ha.
  - apply Hv. destruct v as [[inner' |] ? ? ? ?]; intros inner He.
    + injection He as <-. apply IH.
    + discriminate He.
Qed.

Lemma errors_As_first_pointer e :
  errors_As e = first_some as_AppErrorPtr (unwrap_chain e).
Proof.
  induction e as [s | msg inner IH | p IH | v IH] using error_value_chain_ind.
  - reflexivity.
  - exact IH.
  - destruct p; reflexivity.
  - simpl. destruct (AppError.Err v) as [inner |] eqn:He.
    + now apply IH.
    + reflexivity.
Qed.

(** C3, as the code has it: [IsCategory] answers [false] on the nil
    error; otherwise it walks the unwrap chain, through wrapper errors and
    through an [AppError] held by value alike, up to the first value whose
    dynamic type is [*AppError]; it returns whether that one's
    [Code.Category] equals [c] (panicking if that pointer is nil), and
    [false] when the chain holds no [*AppError].  It is a function of its
    arguments alone: no heap is read or written. *)
Theorem IsCategory_first_pointer c :
  IsCategory None c = Val false
  /\ forall e,
       IsCategory (Some e) c =
         match first_some as_AppErrorPtr (unwrap_chain e) with
         | Some (Some a) => Val (Code.Category (AppError.Code a) =? c)
         | Some None => Panic nil_dereference
         | None => Val false
         end.
Proof.
  split; [reflexivity |]. intros e. unfold IsCategory.
  now rewrite errors_As_first_pointer.
Qed.

(** C3, as stated, fails: an [AppError] of category [ErrNotFound] held by
    value is the first [AppError] of its own chain, so the stated rule
    answers [true] for [ErrNotFound]; [IsCategory] walks past it (its
    dynamic type is not [*AppError]) and answers [false]. *)
Lemma IsCategory_passes_AppError_held_by_value :
  IsCategory_first_AppError
    (Some (AppErrorVal
             (AppError.mk (Some (errorString "no rows")) 0
                (Code.mk ErrNotFound 0) "" None)))
    ErrNotFound = Val true
  /\ IsCategory
       (Some (AppErrorVal
                (AppError.mk (Some (errorString "no rows")) 0
                   (Code.mk ErrNotFound 0) "" None)))
       ErrNotFound = Val false.
Proof. split; reflexivity. Qed.

(** A nil [*AppError] held in the interface is matched by [errors.As] and
    then dereferenced. *)
Lemma IsCategory_nil_pointer c :
  IsCategory (Some (AppErrorPtr None)) c = Panic nil_dereference.
Proof. reflexivity. Qed.

(** Where every [AppError] of the chain is behind a non-nil pointer, the
    stated rule and the code agree. *)
Lemma IsCategory_first_AppError_agrees e c :
  Forall (fun x => match x with
                   | AppErrorVal _ | AppErrorPtr None => False
                   | _ => True
                   end) (unwrap_chain e) ->
  IsCategory (Some e) c = IsCategory_first_AppError (Some e) c.
Proof.
  intros Hall. unfold IsCategory, IsCategory_first_AppError.
  rewrite errors_As_first_pointer.
  induction Hall as [| x rest Hx _ IH]; [reflexivity |].
  destruct x as [? | ? ? | [a |] | ?]; simpl; try contradiction;
    solve [reflexivity | exact IH].
Qed.

(** The hypothesis of C10 at a cause built by [fmt.Errorf] around
    [errors.New]. *)
Lemma convenience_constructors_are_Validation_witness :
  Error (wrapError "load user: no rows" (errorString "no rows"))
    = Val "load user: no rows"
  /\ Forall
       (fun ctor : error -> outcome AppErrorT =>
          exists a,
            ctor (Some (wrapError "load user: no rows" (errorString "no rows")))
              = Val a
            /\ IsCategory (Some (AppErrorPtr (Some a))) ErrValidation
               = Val true)
       [BadRequest; NotFound; Unauthorized; Forbidden; InternalServerError].
Proof.
  split; [reflexivity |].
  apply (convenience_constructors_are_Validation
           (wrapError "load user: no rows" (errorString "no rows"))
           "load user: no rows").
  reflexivity.
Defined.

(** ** The checks listed in the specification, on concrete values *)

Example IsCategory_examples :
  let h : gmap positive (gmap string string) := ∅ in
  let cause := Some (errorString "no rows") in
  exists a h',
    NewAppError cause ErrNotFound None h = Val (a, h')
    /\ IsCategory (Some (AppErrorPtr (Some a))) ErrNotFound = Val true
    /\ IsCategory (Some (AppErrorPtr (Some a))) ErrForbidden = Val false
    /\ IsCategory cause ErrNotFound = Val false
    /\ IsCategory (Some (wrapError "context: no rows" (AppErrorPtr (Some a))))
         ErrNotFound = Val true
    /\ Error (AppErrorPtr (Some a)) = Val "no rows".
Proof. eexists _, _. repeat split. Qed.

Example With_chain_example :
  let h : gmap positive (gmap string string) := ∅ in
  exists a h',
    (do e <- NewAppError (Some (errorString "bad cell")) ErrValidation (Some 42);
     do e1 <- WithField e "x";
     WithRow e1 7) h = Val (a, h')
    /\ Code.Internal (AppError.Code a) = 42
    /\ map_index h' (AppError.Metadata a) "field" = Some "x"
    /\ map_index h' (AppError.Metadata a) "row" = Some "7".
Proof.
  cbv zeta. eexists _, _. unfold bind. rewrite NewAppError_run.
  erewrite WithField_live by (reflexivity || apply lookup_insert_eq).
  erewrite WithRow_live by (reflexivity || apply lookup_insert_eq).
  split; [reflexivity |]. split; [reflexivity |].
  cbn [AppError.Metadata]. split; [| apply map_index_assigned].
  unfold map_index. rewrite lookup_insert_eq.
  rewrite lookup_insert_ne by discriminate. apply lookup_insert_eq.
Qed.

End apperror_properties.

(** * Properties of the [id] packages *)

Section id_properties.

Implicit Types (u : uuid.UUID) (b : Z) (s : string).

(** ** Bytes *)

Lemma byte_cases (P : Z -> bool) :
  forallb P uuid.all_bytes = true ->
  forall b, uuid.is_byte b = true -> P b = true.
Proof.
  intros Hall b Hb. rewrite forallb_forall in Hall. apply Hall.
  unfold uuid.is_byte in Hb. apply andb_prop in Hb as [Hlo Hhi].
  apply Z.leb_le in Hlo. apply Z.ltb_lt in Hhi.
  unfold uuid.all_bytes. rewrite <- (Z2Nat.id b) by exact Hlo.
  apply in_map, in_seq. lia.
Qed.

(** Decoding the two digits [hex.Encode] writes for a byte gives the byte
    back. *)
Lemma xtob_hex b :
  uuid.is_byte b = true ->
  uuid.xtob (uuid.byte_at uuid.hextable (Z.to_nat (Z.shiftr b 4)))
            (uuid.byte_at uuid.hextable (Z.to_nat (Z.land b 15)))
    = (b, true).
Proof.
  intros Hb.
  pose (P := fun b =>
    let '(v, ok) :=
      uuid.xtob (uuid.byte_at uuid.hextable (Z.to_nat (Z.shiftr b 4)))
                (uuid.byte_at uuid.hextable (Z.to_nat (Z.land b 15))) in
    (v =? b) && ok).
  assert (HP : P b = true) by (apply byte_cases; [vm_compute; reflexivity | exact Hb]).
  unfold P in HP. destruct (uuid.xtob _ _) as [v ok].
  apply andb_prop in HP as [Hv ->]. apply Z.eqb_eq in Hv. now subst v.
Qed.

(** The version and variant bytes [New] writes are bytes, and the
    version byte is not zero. *)
Lemma version_byte b :
  uuid.is_byte b = true ->
  uuid.is_byte (Z.lor (Z.land b 15) 64) = true
  /\ Z.lor (Z.land b 15) 64 <> 0.
Proof.
  intros Hb.
  pose (P := fun b => uuid.is_byte (Z.lor (Z.land b 15) 64)
                      && negb (Z.lor (Z.land b 15) 64 =? 0)).
  assert (HP : P b = true) by (apply byte_cases; [vm_compute; reflexivity | exact Hb]).
  unfold P in HP. apply andb_prop in HP as [H1 H2]. split; [exact H1 |].
  apply negb_true_iff, Z.eqb_neq in H2. exact H2.
Qed.

Lemma variant_byte b :
  uuid.is_byte b = true ->
  uuid.is_byte (Z.lor (Z.land b 63) 128) = true.
Proof.
  intros Hb.
  apply (byte_cases (fun b => uuid.is_byte (Z.lor (Z.land b 63) 128)));
    [vm_compute; reflexivity | exact Hb].
Qed.

(** A well-formed UUID is a list of sixteen bytes. *)
Lemma wf_sixteen u :
  uuid.wf u = true ->
  exists b0 b1 b2 b3 b4 b5 b6 b7 b8 b9 b10 b11 b12 b13 b14 b15,
    u = [b0; b1; b2; b3; b4; b5; b6; b7; b8; b9; b10; b11; b12; b13; b14; b15]
    /\ Forall (fun b => uuid.is_byte b = true) u.
Proof.
  unfold uuid.wf. intros H. apply andb_prop in H as [Hlen Hall].
  apply Nat.eqb_eq in Hlen.
  do 16 (destruct u as [| ? u]; [discriminate Hlen |]).
  destruct u; [| discriminate Hlen].
  do 16 eexists. split; [reflexivity |].
  apply Forall_forall. intros b Hin. rewrite forallb_forall in Hall.
  apply Hall. apply list_elem_of_In. exact Hin.
Qed.

(** ** Text form and parsing *)

(** [Parse] reads back what [String] writes. *)
Lemma Parse_String u :
  uuid.wf u = true -> uuid.Parse (uuid.String u) = inl u.
Proof.
  intros Hwf. apply wf_sixteen in Hwf as (b0 & b1 & b2 & b3 & b4 & b5 & b6 & b7
    & b8 & b9 & b10 & b11 & b12 & b13 & b14 & b15 & -> & Hall).
  repeat match goal with
         | H : Forall _ (_ :: _) |- _ => apply Forall_cons in H as [? H]
         end.
  clear Hall.
  cbv [uuid.String uuid.slice firstn skipn Nat.sub uuid.hex_Encode String.append].
  repeat match goal with
         | |- context [uuid.byte_at uuid.hextable ?n] =>
             let h := fresh "h" in
             let E := fresh "E" in
             remember (uuid.byte_at uuid.hextable n) as h eqn:E
         end.
  cbv -[uuid.xtob].
  subst.
  repeat (rewrite xtob_hex by assumption; cbv beta iota).
  reflexivity.
Qed.

Lemma String_inj u1 u2 :
  uuid.wf u1 = true -> uuid.wf u2 = true ->
  uuid.String u1 = uuid.String u2 -> u1 = u2.
Proof.
  intros H1 H2 Heq. apply Parse_String in H1, H2.
  rewrite Heq in H1. congruence.
Qed.

Lemma append_not_empty s1 s2 : s2 <> "" -> String.append s1 s2 <> "".
Proof. intros H. destruct s1; [exact H | discriminate]. Qed.

Lemma String_not_empty u : uuid.String u <> "".
Proof. unfold uuid.String. apply append_not_empty. discriminate. Qed.

Lemma wf_Nil : uuid.wf uuid.Nil = true.
Proof. reflexivity. Qed.

(** ** Random identifiers *)

Lemma wf_New (rnd : list Z) :
  uuid.wf rnd = true ->
  uuid.wf (uuid.New rnd) = true /\ uuid.New rnd <> uuid.Nil.
Proof.
  intros Hwf. apply wf_sixteen in Hwf as (b0 & b1 & b2 & b3 & b4 & b5 & b6 & b7
    & b8 & b9 & b10 & b11 & b12 & b13 & b14 & b15 & -> & Hall).
  repeat match goal with
         | H : Forall _ (_ :: _) |- _ => apply Forall_cons in H as [? H]
         end.
  clear Hall.
  change (uuid.New [b0; b1; b2; b3; b4; b5; b6; b7; b8; b9; b10; b11; b12;
                    b13; b14; b15])
    with [b0; b1; b2; b3; b4; b5; Z.lor (Z.land b6 15) 64; b7;
          Z.lor (Z.land b8 63) 128; b9; b10; b11; b12; b13; b14; b15].
  destruct (version_byte b6) as [Hb6 Hne]; [assumption |].
  assert (Hb8 : uuid.is_byte (Z.lor (Z.land b8 63) 128) = true)
    by (apply variant_byte; assumption).
  split.
  - unfold uuid.wf. cbn [length Nat.eqb forallb andb].
    repeat match goal with
           | H : uuid.is_byte _ = true |- _ => rewrite H; clear H
           end.
    reflexivity.
  - unfold uuid.Nil. cbn [repeat]. intros Heq. apply Hne.
    injection Heq. intros. assumption.
Qed.

(** ** [FromString] *)

Lemma String_Nil : uuid.String uuid.Nil = uuid.nil_text.
Proof. reflexivity. Qed.

Lemma id_FromString_rejected s :
  s = "" \/ s = uuid.nil_text ->
  id.FromString s = Val (None, Some "string s cannot be empty").
Proof. intros [-> | ->]; reflexivity. Qed.

Lemma id_FromString_parsed s :
  s <> "" -> s <> uuid.nil_text ->
  id.FromString s =
    match uuid.Parse s with
    | inl u => Val (Some u, None)
    | inr e => Panic ("uuid: Parse(" ++ s ++ "): " ++ e)
    end.
Proof.
  intros H1 H2. unfold id.FromString.
  apply String.eqb_neq in H1. rewrite <- String_Nil in H2.
  apply String.eqb_neq in H2. rewrite H1, H2. simpl.
  unfold uuid.MustParse. now destruct (uuid.Parse s).
Qed.

Lemma pkg_id_FromString_parsed s :
  s <> "" ->
  pkg_id.FromString s =
    match uuid.Parse s with
    | inl u => Val (Some u, None)
    | inr e => Panic ("uuid: Parse(" ++ s ++ "): " ++ e)
    end.
Proof.
  intros H1. unfold pkg_id.FromString.
  apply String.eqb_neq in H1. rewrite H1.
  unfold uuid.MustParse. now destruct (uuid.Parse s).
Qed.

(** Malformed text is not answered with an error: the call panics. *)
Lemma FromString_malformed_panics :
  id.FromString "not-a-uuid"
    = Panic "uuid: Parse(not-a-uuid): invalid UUID length"
  /\ pkg_id.FromString "not-a-uuid"
    = Panic "uuid: Parse(not-a-uuid): invalid UUID length".
Proof. split; reflexivity. Qed.

(** C8, as the code has it.  In [src/id/id.go], [FromString s] returns
    a nil [*Id] with a non-nil error exactly when [s] is empty or is the
    text of the nil UUID; on every other [s] it is [uuid.Parse s], the
    parsed [Id] with a nil error, or a panic where [Parse] reports an
    error.  In [src/pkg/id/id.go], [FromString s] returns an error exactly
    when [s] is empty, and is [uuid.Parse s] in the same way on every other
    [s], the text of the nil UUID included. *)
Theorem FromString_validation s :
  ((exists p msg, id.FromString s = Val (p, Some msg))
     <-> (s = "" \/ s = uuid.nil_text))
  /\ (s = "" \/ s = uuid.nil_text ->
      id.FromString s = Val (None, Some "string s cannot be empty"))
  /\ (s <> "" -> s <> uuid.nil_text ->
      id.FromString s =
        match uuid.Parse s with
        | inl u => Val (Some u, None)
        | inr e => Panic ("uuid: Parse(" ++ s ++ "): " ++ e)
        end)
  /\ ((exists p msg, pkg_id.FromString s = Val (p, Some msg)) <-> s = "")
  /\ (s = "" ->
      pkg_id.FromString s = Val (None, Some "string s cannot be empty"))
  /\ (s <> "" ->
      pkg_id.FromString s =
        match uuid.Parse s with
        | inl u => Val (Some u, None)
        | inr e => Panic ("uuid: Parse(" ++ s ++ "): " ++ e)
        end).
Proof.
  split; [| split; [apply id_FromString_rejected |
            split; [apply id_FromString_parsed |
            split; [| split; [intros ->; reflexivity
                             | apply pkg_id_FromString_parsed]]]]].
  - split.
    + intros (p & msg & Hr).
      destruct (String.eqb_spec s "") as [| H1]; [now left |].
      destruct (String.eqb_spec s uuid.nil_text) as [| H2]; [now right |].
      rewrite (id_FromString_parsed s H1 H2) in Hr.
      destruct (uuid.Parse s); discriminate Hr.
    + intros H. exists None, "string s cannot be empty".
      now apply id_FromString_rejected.
  - split.
    + intros (p & msg & Hr).
      destruct (String.eqb_spec s "") as [| H1]; [assumption |].
      rewrite (pkg_id_FromString_parsed s H1) in Hr.
      destruct (uuid.Parse s); discriminate Hr.
    + intros ->. now exists None, "string s cannot be empty".
Qed.

(** C8, as stated, fails on [src/pkg/id/id.go]: there [FromString] of the
    text of the nil UUID returns the nil [Id] and a nil error. *)
Lemma pkg_id_FromString_accepts_nil_text :
  pkg_id.FromString "00000000-0000-0000-0000-000000000000"
    = Val (Some uuid.Nil, None).
Proof. reflexivity. Qed.

(** ** Round trip *)

Lemma id_round_trip (rnd : list Z) :
  uuid.wf rnd = true ->
  id.FromString (id.ToString (id.NewId rnd)) = Val (Some (id.NewId rnd), None).
Proof.
  intros Hwf. destruct (wf_New rnd Hwf) as [Hnew Hne].
  unfold id.ToString, id.NewId. rewrite id_FromString_parsed.
  - now rewrite Parse_String.
  - apply String_not_empty.
  - rewrite <- String_Nil. intros Heq. apply Hne.
    now apply String_inj; [| apply wf_Nil |].
Qed.

Lemma pkg_id_round_trip :
  pkg_id.FromString (pkg_id.ToString pkg_id.NewId)
    = Val (Some pkg_id.NewId, None).
Proof. reflexivity. Qed.

Lemma id_FromString_is_Parse s i (e : option string) :
  id.FromString s = Val (Some i, e) -> uuid.Parse s = inl i.
Proof.
  unfold id.FromString, uuid.MustParse.
  destruct (_ || _); [discriminate |].
  destruct (uuid.Parse s); [| discriminate]. intros H.
  injection H as -> _. reflexivity.
Qed.

Lemma pkg_id_FromString_is_Parse s i (e : option string) :
  pkg_id.FromString s = Val (Some i, e) -> uuid.Parse s = inl i.
Proof.
  unfold pkg_id.FromString, uuid.MustParse.
  destruct (String.eqb s ""); [discriminate |].
  destruct (uuid.Parse s); [| discriminate]. intros H.
  injection H as -> _. reflexivity.
Qed.

(** C9: for the [Id] that [NewId] makes from any sixteen random bytes,
    [FromString] of its [ToString] returns an [Id] with the same sixteen
    bytes and a nil error, in [src/id/id.go]; the same holds for the zero
    [Id] that [NewId] of [src/pkg/id/id.go] makes; and in both packages
    two [Id]s that [FromString] returns for the same text have the same
    bytes. *)
Theorem FromString_ToString_NewId (rnd : list Z) :
  uuid.wf rnd = true ->
  id.FromString (id.ToString (id.NewId rnd)) = Val (Some (id.NewId rnd), None)
  /\ pkg_id.FromString (pkg_id.ToString pkg_id.NewId)
     = Val (Some pkg_id.NewId, None)
  /\ (forall s i1 i2 e1 e2,
         id.FromString s = Val (Some i1, e1) ->
         id.FromString s = Val (Some i2, e2) -> i1 = i2)
  /\ (forall s i1 i2 e1 e2,
         pkg_id.FromString s = Val (Some i1, e1) ->
         pkg_id.FromString s = Val (Some i2, e2) -> i1 = i2).
Proof.
  intros Hwf.
  split; [now apply id_round_trip |].
  split; [apply pkg_id_round_trip |].
  split; intros s i1 i2 e1 e2 H1 H2.
  - apply id_FromString_is_Parse in H1, H2. congruence.
  - apply pkg_id_FromString_is_Parse in H1, H2. congruence.
Qed.

(** The hypothesis of C9 at sixteen given bytes: [NewId] rewrites bytes 6
    and 8 (222 to 78, 1 to 129) and the text reads back to that [Id]. *)
Lemma FromString_ToString_NewId_witness :
  uuid.wf [18; 52; 86; 120; 154; 188; 222; 240; 1; 35; 69; 103; 137; 171; 205; 239]
    = true
  /\ id.FromString
       (id.ToString
          (id.NewId [18; 52; 86; 120; 154; 188; 222; 240;
                     1; 35; 69; 103; 137; 171; 205; 239]))
     = Val (Some [18; 52; 86; 120; 154; 188; 78; 240;
                  129; 35; 69; 103; 137; 171; 205; 239], None).
Proof.
  split; [reflexivity |].
  apply (FromString_ToString_NewId
           [18; 52; 86; 120; 154; 188; 222; 240;
            1; 35; 69; 103; 137; 171; 205; 239]).
  reflexivity.
Defined.

End id_properties.

(** * Further properties of [apperror] *)

Section apperror_more.
Import apperror.

Implicit Types (h : gmap positive (gmap string string)).
Implicit Types (e : error_value) (a : AppErrorT) (c : Category).

(** ** Builder methods *)

(** X1: on an [AppError] whose [Metadata] refers to a live map, each of
    [WithField], [WithRow] and [WithInfo] returns the struct unchanged,
    writes its own key, leaves every other key of that map as it was, and
    leaves every other map of the heap as it was. *)
Theorem With_writes_one_key h a l (entries : gmap string string)
    (v : string) (row : Z) :
  AppError.Metadata a = Some l ->
  h !! l = Some entries ->
  exists h1 h2 h3,
    WithField a v h = Val (a, h1)
    /\ WithRow a row h = Val (a, h2)
    /\ WithInfo a v h = Val (a, h3)
    /\ map_index h1 (Some l) "field" = Some v
    /\ map_index h2 (Some l) "row" = Some (Itoa row)
    /\ map_index h3 (Some l) "info" = Some v
    /\ (forall k, k <> "field" -> map_index h1 (Some l) k = entries !! k)
    /\ (forall k, k <> "row" -> map_index h2 (Some l) k = entries !! k)
    /\ (forall k, k <> "info" -> map_index h3 (Some l) k = entries !! k)
    /\ (forall l', l' <> l ->
          h1 !! l' = h !! l' /\ h2 !! l' = h !! l' /\ h3 !! l' = h !! l').
Proof.
  intros Hm Hl. eexists _, _, _.
  rewrite (WithField_live _ _ _ _ _ Hm Hl), (WithRow_live _ _ _ _ _ Hm Hl),
    (WithInfo_live _ _ _ _ _ Hm Hl).
  do 3 (split; [reflexivity |]).
  do 3 (split; [apply map_index_assigned |]).
  do 3 (split; [intros k Hk; unfold map_index; rewrite lookup_insert_eq;
                apply lookup_insert_ne; congruence |]).
  intros l' Hne. repeat split; apply lookup_insert_ne; congruence.
Qed.

(** The hypotheses of X1 on a heap with one map holding a "row" entry. *)
Lemma With_writes_one_key_witness :
  exists h1,
    WithField (AppError.mk None 0 (Code.mk ErrInternal 0) "" (Some 1%positive))
      "name" {[1%positive := {["row" := "3"]}]}
      = Val (AppError.mk None 0 (Code.mk ErrInternal 0) "" (Some 1%positive), h1)
    /\ map_index h1 (Some 1%positive) "field" = Some "name"
    /\ map_index h1 (Some 1%positive) "row" = Some "3".
Proof.
  destruct (With_writes_one_key {[1%positive := {["row" := "3"]}]}
              (AppError.mk None 0 (Code.mk ErrInternal 0) "" (Some 1%positive))
              1%positive {["row" := "3"]} "name" 0 eq_refl
              (lookup_singleton_eq _ _))
    as (h1 & h2 & h3 & H1 & _ & _ & Hf & _ & _ & Hk & _).
  exists h1. split; [exact H1 |]. split; [exact Hf |].
  rewrite Hk by discriminate. apply lookup_singleton_eq.
Defined.

(** X2: on an [AppError] with a live [Metadata] map, [WithField v] followed
    by [WithRow row] and [WithRow row] followed by [WithField v] end in the
    same struct and the same heap, in which both keys read back. *)
Theorem WithField_WithRow_commute h a l (entries : gmap string string)
    (v : string) (row : Z) :
  AppError.Metadata a = Some l ->
  h !! l = Some entries ->
  exists h',
    (do a1 <- WithField a v; WithRow a1 row) h = Val (a, h')
    /\ (do a1 <- WithRow a row; WithField a1 v) h = Val (a, h')
    /\ map_index h' (AppError.Metadata a) "field" = Some v
    /\ map_index h' (AppError.Metadata a) "row" = Some (Itoa row).
Proof.
  intros Hm Hl.
  exists (<[l := <["row" := Itoa row]> (<["field" := v]> entries)]> h).
  unfold bind.
  rewrite (WithField_live _ _ _ _ _ Hm Hl), (WithRow_live _ _ _ _ _ Hm Hl).
  rewrite (WithRow_live _ a l (<["field" := v]> entries))
    by (assumption || apply lookup_insert_eq).
  rewrite (WithField_live _ a l (<["row" := Itoa row]> entries))
    by (assumption || apply lookup_insert_eq).
  rewrite !insert_insert_eq.
  rewrite (insert_insert_ne entries "field" "row") by discriminate.
  rewrite Hm. repeat split.
  - unfold map_index. rewrite lookup_insert_eq.
    rewrite lookup_insert_ne by discriminate. apply lookup_insert_eq.
  - apply map_index_assigned.
Qed.

(** The hypotheses of X2 on the heap with one empty map. *)
Lemma WithField_WithRow_commute_witness :
  exists h',
    (do a1 <- WithField
                (AppError.mk None 0 (Code.mk ErrInternal 0) "" (Some 1%positive))
                "name";
     WithRow a1 12) {[1%positive := ∅]}
      = Val (AppError.mk None 0 (Code.mk ErrInternal 0) "" (Some 1%positive), h')
    /\ map_index h' (Some 1%positive) "row" = Some "12".
Proof.
  destruct (WithField_WithRow_commute {[1%positive := ∅]}
              (AppError.mk None 0 (Code.mk ErrInternal 0) "" (Some 1%positive))
              1%positive ∅ "name" 12 eq_refl (lookup_singleton_eq _ _))
    as (h' & H1 & _ & _ & Hr).
  exists h'. split; [exact H1 | exact Hr].
Defined.

(** X3: calling [WithField] twice keeps only the second value: the run
    ends in the same struct and heap as the second call alone. *)
Theorem WithField_last_wins h a l (entries : gmap string string)
    (v1 v2 : string) :
  AppError.Metadata a = Some l ->
  h !! l = Some entries ->
  (do a1 <- WithField a v1; WithField a1 v2) h = WithField a v2 h
  /\ exists h', WithField a v2 h = Val (a, h')
                /\ map_index h' (AppError.Metadata a) "field" = Some v2.
Proof.
  intros Hm Hl. unfold bind.
  rewrite (WithField_live _ _ _ _ _ Hm Hl), (WithField_live _ _ _ _ _ Hm Hl).
  rewrite (WithField_live _ a l (<["field" := v1]> entries))
    by (assumption || apply lookup_insert_eq).
  rewrite !insert_insert_eq. split; [reflexivity |].
  eexists. split; [reflexivity |]. rewrite Hm. apply map_index_assigned.
Qed.

(** The hypotheses of X3 on the heap with one empty map. *)
Lemma WithField_last_wins_witness :
  (do a1 <- WithField
              (AppError.mk None 0 (Code.mk ErrInternal 0) "" (Some 1%positive))
              "first";
   WithField a1 "second") {[1%positive := ∅]}
  = WithField (AppError.mk None 0 (Code.mk ErrInternal 0) "" (Some 1%positive))
      "second" {[1%positive := ∅]}.
Proof.
  exact (proj1 (WithField_last_wins {[1%positive := ∅]}
                  (AppError.mk None 0 (Code.mk ErrInternal 0) "" (Some 1%positive))
                  1%positive ∅ "first" "second" eq_refl
                  (lookup_singleton_eq _ _))).
Defined.


(** X5: on a heap in which the [Metadata] reference of [a], if any, is
    live, each builder method panics exactly when [Metadata] is the nil
    map, and otherwise returns. *)
Theorem With_panics_iff_nil_Metadata h a (v : string) (row : Z) :
  (forall l, AppError.Metadata a = Some l -> is_Some (h !! l)) ->
  ((exists msg, WithField a v h = Panic msg) <-> AppError.Metadata a = None)
  /\ ((exists msg, WithRow a row h = Panic msg) <-> AppError.Metadata a = None)
  /\ ((exists msg, WithInfo a v h = Panic msg) <-> AppError.Metadata a = None)
  /\ (AppError.Metadata a <> None ->
      exists h1 h2 h3,
        WithField a v h = Val (a, h1) /\ WithRow a row h = Val (a, h2)
        /\ WithInfo a v h = Val (a, h3)).
Proof.
  intros Hlive. destruct (AppError.Metadata a) as [l |] eqn:Hm.
  - destruct (Hlive l eq_refl) as [entries Hl].
    rewrite (WithField_live _ _ _ _ _ Hm Hl), (WithRow_live _ _ _ _ _ Hm Hl),
      (WithInfo_live _ _ _ _ _ Hm Hl).
    repeat split; try (intros [msg H]; discriminate H); try discriminate.
    intros _. eexists _, _, _. repeat split.
  - unfold WithField, WithRow, WithInfo, bind. rewrite Hm. simpl.
    repeat split; try (intros _; eexists; reflexivity); try reflexivity.
    intros H. contradiction.
Qed.

(** The hypothesis of X5 at a struct with the nil map, on the empty heap. *)
Lemma With_panics_iff_nil_Metadata_witness :
  exists msg,
    WithInfo (AppError.mk None 0 (Code.mk ErrInternal 0) "" None) "note" ∅
      = Panic msg.
Proof.
  destruct (With_panics_iff_nil_Metadata ∅
              (AppError.mk None 0 (Code.mk ErrInternal 0) "" None) "note" 0)
    as (_ & _ & H & _).
  - intros l Hl. discriminate Hl.
  - apply H. reflexivity.
Defined.

(** ** Classification *)

Lemma errors_As_wrap_all msgs e :
  errors_As (wrap_all msgs e) = errors_As e.
Proof. induction msgs as [| msg msgs IH]; [reflexivity | exact IH]. Qed.

(** X6: an [AppError] made by [NewAppError] with category [c] answers
    [IsCategory] for [c'] with whether [c] equals [c'], held directly, after
    a builder call, and under any number of [fmt.Errorf] wrappers; whatever
    its cause, be it nil or another [AppError]. *)
Theorem IsCategory_NewAppError h (cause : error) c c' (n : option Z)
    (v : string) (msgs : list string) :
  exists a h' h'',
    NewAppError cause c n h = Val (a, h')
    /\ IsCategory (Some (AppErrorPtr (Some a))) c' = Val (c =? c')
    /\ ((c =? c') = true <-> c = c')
    /\ WithField a v h' = Val (a, h'')
    /\ IsCategory (Some (wrap_all msgs (AppErrorPtr (Some a)))) c'
       = Val (c =? c').
Proof.
  eexists _, _, _. rewrite NewAppError_run.
  split; [reflexivity |]. split; [reflexivity |].
  split; [apply Z.eqb_eq |].
  split; [eapply WithField_live; [reflexivity | apply lookup_insert_eq] |].
  unfold IsCategory. now rewrite errors_As_wrap_all.
Qed.

(** X7: an error is of at most one category: if [IsCategory] answers
    [true] for [c1] and for [c2], then [c1] is [c2]. *)
Theorem IsCategory_unique (err : error) c1 c2 :
  IsCategory err c1 = Val true ->
  IsCategory err c2 = Val true ->
  c1 = c2.
Proof.
  unfold IsCategory. destruct err as [e |]; [| discriminate].
  destruct (errors_As e) as [[a |] |]; try discriminate.
  intros H1 H2. injection H1 as H1. injection H2 as H2.
  apply Z.eqb_eq in H1, H2. congruence.
Qed.

(** The hypotheses of X7 at a wrapped [*AppError] of category
    [ErrForbidden]. *)
Lemma IsCategory_unique_witness :
  IsCategory
    (Some (wrapError "handler: denied"
             (AppErrorPtr
                (Some (AppError.mk (Some (errorString "denied")) 0
                         (Code.mk ErrForbidden 0) "" None)))))
    ErrForbidden = Val true
  /\ ErrForbidden = 5.
Proof.
  split; [reflexivity |].
  apply (IsCategory_unique
           (Some (wrapError "handler: denied"
                    (AppErrorPtr
                       (Some (AppError.mk (Some (errorString "denied")) 0
                                (Code.mk ErrForbidden 0) "" None)))))
           ErrForbidden 5); reflexivity.
Defined.

(** X8: wrapping with [fmt.Errorf] any number of times changes neither
    what [IsCategory] answers (a panic included) nor what [errors.As]
    finds, and the wrapped error renders the outermost text. *)
Theorem IsCategory_wrap_all (msgs : list string) e c :
  IsCategory (Some (wrap_all msgs e)) c = IsCategory (Some e) c
  /\ errors_As (wrap_all msgs e) = errors_As e
  /\ (forall msg, Error (wrap_all (msg :: msgs) e) = Val msg).
Proof.
  unfold IsCategory. rewrite errors_As_wrap_all. repeat split.
Qed.

Local Ltac named_case :=
  split; [discriminate | intros H; exfalso; apply H; simpl; tauto].

(** X9: [String] returns the fallback text exactly for the values it has
    no [case] for ([ErrSecurity] among them), and on the six values it
    names it is injective. *)
Theorem String_fallback_iff c :
  (String c = "UnkownCategoryError" <-> ~ In c named_categories)
  /\ (forall c', In c named_categories -> In c' named_categories ->
                 String c = String c' -> c = c').
Proof.
  split.
  - unfold String, named_categories, ErrValidation, ErrInternal, ErrNotFound,
      ErrMethoNotAllowed, ErrForbidden, ErrUnauthorized.
    destruct (Z.eqb_spec c 0) as [-> | ?]; [named_case |].
    destruct (Z.eqb_spec c 1) as [-> | ?]; [named_case |].
    destruct (Z.eqb_spec c 2) as [-> | ?]; [named_case |].
    destruct (Z.eqb_spec c 3) as [-> | ?]; [named_case |].
    destruct (Z.eqb_spec c 5) as [-> | ?]; [named_case |].
    destruct (Z.eqb_spec c 6) as [-> | ?]; [named_case |].
    split; [| reflexivity]. intros _ H. simpl in H. intuition congruence.
  - intros c' Hc Hc'. simpl in Hc, Hc'.
    repeat (destruct Hc as [<- | Hc]; [| ]);
      try contradiction;
      repeat (destruct Hc' as [<- | Hc']; [| ]);
      try contradiction; first [reflexivity | discriminate].
Qed.

(** ** Rendering and the convenience constructors *)


(** X11: [withStatus], hence each convenience constructor, panics exactly
    when the cause is nil or the cause's [Error] panics.  When it returns,
    the result keeps the cause, has the given number in [Code.Internal],
    zero [Status], nil [Metadata], and its own [Error] text is its
    [Message]. *)
Theorem withStatus_outcomes (n : Z) (err : error) :
  ((exists msg, withStatus n err = Panic msg)
     <-> (err = None \/ exists e msg, err = Some e /\ Error e = Panic msg))
  /\ (forall a, withStatus n err = Val a ->
        AppError.Err a = err
        /\ Unwrap a = err
        /\ Code.Internal (AppError.Code a) = n
        /\ AppError.Status a = 0
        /\ AppError.Metadata a = None
        /\ Error (AppErrorPtr (Some a)) = Val (AppError.Message a)).
Proof.
  unfold withStatus. destruct err as [e |].
  - destruct (Error e) as [text | msg] eqn:He.
    + split.
      * split; [intros [m H]; discriminate H |].
        intros [H | (e' & m & H & He')]; [discriminate H |].
        injection H as <-. congruence.
      * intros a [= <-]. simpl. unfold AppError_Error. simpl.
        repeat split. exact He.
    + split; [| intros a H; discriminate H].
      split; [| intros _; eexists; reflexivity].
      intros _. right. now exists e, msg.
  - split; [| intros a H; discriminate H].
    split; [intros _; now left | intros _; eexists; reflexivity].
Qed.

(** X12: [NewAppError] accepts a nil cause on every heap; the error it
    returns still classifies by its category, but rendering it with [Error]
    panics, [Unwrap] gives nil, and handing it as cause to a convenience
    constructor panics too. *)
Theorem NewAppError_nil_cause h c (n : option Z) (status : Z) :
  exists a h',
    NewAppError None c n h = Val (a, h')
    /\ IsCategory (Some (AppErrorPtr (Some a))) c = Val true
    /\ Unwrap a = None
    /\ Error (AppErrorPtr (Some a)) = Panic nil_dereference
    /\ withStatus status (Some (AppErrorPtr (Some a))) = Panic nil_dereference.
Proof.
  eexists _, _. rewrite NewAppError_run. split; [reflexivity |].
  split; [unfold IsCategory; simpl; now rewrite Z.eqb_refl |].
  repeat split.
Qed.

(** ** The row number *)

Lemma Itoa_decimal_value (i : Z) : decimal_value (Itoa i) = Some i.
Proof.
  unfold decimal_value, Itoa. rewrite NilZero.isi.
  - simpl. now rewrite DecimalZ.of_to.
  - destruct i; simpl; try discriminate.
    intros [= H]. now apply DecimalPos.Unsigned.to_uint_nonnil in H.
  - destruct i; simpl; try discriminate.
    intros [= H]. now apply DecimalPos.Unsigned.to_uint_nonnil in H.
Qed.

(** X13: on an [AppError] with a live [Metadata] map, [WithRow row] stores
    under "row" the decimal text of [row], which reads back to [row],
    negative numbers and zero included; so two row numbers are stored as the
    same text only if they are equal. *)
Theorem WithRow_reads_back h a l (entries : gmap string string) (row : Z) :
  AppError.Metadata a = Some l ->
  h !! l = Some entries ->
  exists h',
    WithRow a row h = Val (a, h')
    /\ map_index h' (AppError.Metadata a) "row" = Some (Itoa row)
    /\ decimal_value (Itoa row) = Some row
    /\ (forall row', Itoa row' = Itoa row -> row' = row).
Proof.
  intros Hm Hl. eexists.
  rewrite (WithRow_live _ _ _ _ _ Hm Hl), Hm.
  split; [reflexivity |]. split; [apply map_index_assigned |].
  split; [apply Itoa_decimal_value |].
  intros row' Heq. apply (f_equal decimal_value) in Heq.
  rewrite !Itoa_decimal_value in Heq. congruence.
Qed.

(** The hypotheses of X13 at row -40 on a heap with one
    empty map. *)
Lemma WithRow_reads_back_witness :
  exists h',
    WithRow (AppError.mk None 0 (Code.mk ErrValidation 0) "" (Some 1%positive))
      (-40) {[1%positive := ∅]}
    = Val (AppError.mk None 0 (Code.mk ErrValidation 0) "" (Some 1%positive), h')
    /\ map_index h' (Some 1%positive) "row" = Some "-40".
Proof.
  destruct (WithRow_reads_back {[1%positive := ∅]}
              (AppError.mk None 0 (Code.mk ErrValidation 0) "" (Some 1%positive))
              1%positive ∅ (-40) eq_refl (lookup_singleton_eq _ _))
    as (h' & H1 & H2 & _).
  exists h'. split; [exact H1 | exact H2].
Defined.

End apperror_more.

(** * Further properties of the [id] packages *)

Section id_more.

Implicit Types (u : uuid.UUID) (b : Z) (s : string).

(** ** What [Parse] returns *)

Lemma ascii_cases (P : ascii -> bool) :
  forallb P uuid.all_ascii = true -> forall c, P c = true.
Proof.
  intros H c. rewrite forallb_forall in H. apply H.
  rewrite <- (ascii_nat_embedding c). apply in_map, in_seq.
  pose proof (nat_ascii_bounded c). lia.
Qed.

Lemma xvalue_range (c : ascii) :
  uuid.xvalue c = 255 \/ 0 <= uuid.xvalue c <= 15.
Proof.
  pose proof (ascii_cases
    (fun c => (uuid.xvalue c =? 255)
              || ((0 <=? uuid.xvalue c) && (uuid.xvalue c <=? 15)))) as H.
  specialize (H ltac:(vm_compute; reflexivity) c). simpl in H.
  apply orb_prop in H as [H | H]; [left; now apply Z.eqb_eq |].
  apply andb_prop in H as [H1 H2]. right.
  split; now apply Z.leb_le.
Qed.

Lemma xtob_is_byte (c1 c2 : ascii) v :
  uuid.xtob c1 c2 = (v, true) -> uuid.is_byte v = true.
Proof.
  unfold uuid.xtob. intros H. injection H as Hv Hok.
  apply andb_prop in Hok as [H1 H2].
  apply negb_true_iff, Z.eqb_neq in H1, H2.
  destruct (xvalue_range c1) as [? | R1]; [contradiction |].
  destruct (xvalue_range c2) as [? | R2]; [contradiction |].
  subst v. generalize dependent (uuid.xvalue c2).
  generalize dependent (uuid.xvalue c1). intros b1 _ R1 b2 _ R2.
  assert (E1 : In b1 (map Z.of_nat (seq 0 16))).
  { rewrite <- (Z2Nat.id b1) by lia. apply in_map, in_seq. lia. }
  assert (E2 : In b2 (map Z.of_nat (seq 0 16))).
  { rewrite <- (Z2Nat.id b2) by lia. apply in_map, in_seq. lia. }
  assert (Hall : forallb (fun x => forallb (fun y =>
            uuid.is_byte (Z.lor (Z.land (Z.shiftl x 4) 255) y))
              (map Z.of_nat (seq 0 16))) (map Z.of_nat (seq 0 16)) = true)
    by (vm_compute; reflexivity).
  rewrite forallb_forall in Hall. specialize (Hall b1 E1).
  rewrite forallb_forall in Hall. exact (Hall b2 E2).
Qed.

Lemma decode_at_wf s (offsets : list nat) u :
  uuid.decode_at s offsets = inl u ->
  length u = length offsets /\ forallb uuid.is_byte u = true.
Proof.
  revert u. induction offsets as [| x rest IH]; intros u H;
    cbn [uuid.decode_at] in H.
  - injection H as <-. split; reflexivity.
  - destruct (uuid.xtob _ _) as [v ok] eqn:Hx. destruct ok; [| discriminate H].
    destruct (uuid.decode_at s rest) as [u' | ?]; [| discriminate H].
    injection H as <-. destruct (IH u' eq_refl) as [Hlen Hall].
    split; simpl; [now rewrite Hlen |].
    now rewrite (xtob_is_byte _ _ _ Hx).
Qed.

Lemma parse_hyphenated_wf s u :
  uuid.parse_hyphenated s = inl u -> uuid.wf u = true.
Proof.
  unfold uuid.parse_hyphenated. destruct (_ || _); [discriminate |].
  intros H. apply decode_at_wf in H as [Hlen Hall].
  unfold uuid.wf. rewrite Hlen, Hall. reflexivity.
Qed.

(** [Parse], with its [switch] on the length written as tests. *)
Lemma Parse_by_length s :
  uuid.Parse s =
    if (String.length s =? 36)%nat then uuid.parse_hyphenated s
    else if (String.length s =? 45)%nat then
      if String.eqb (uuid.lower (substring 0 9 s)) "urn:uuid:"
      then uuid.parse_hyphenated (substring 9 36 s)
      else inr "invalid urn prefix"
    else if (String.length s =? 38)%nat then
      uuid.parse_hyphenated (substring 1 37 s)
    else if (String.length s =? 32)%nat then
      uuid.decode_at s
        [0; 2; 4; 6; 8; 10; 12; 14; 16; 18; 20; 22; 24; 26; 28; 30]%nat
    else inr "invalid UUID length".
Proof.
  unfold uuid.Parse. generalize (String.length s) as n. intros n.
  do 46 (destruct n as [| n]; [reflexivity |]). reflexivity.
Qed.

Lemma Parse_wf s u : uuid.Parse s = inl u -> uuid.wf u = true.
Proof.
  rewrite Parse_by_length.
  destruct (_ =? 36)%nat; [apply parse_hyphenated_wf |].
  destruct (_ =? 45)%nat.
  { destruct (String.eqb _ _); [apply parse_hyphenated_wf | discriminate]. }
  destruct (_ =? 38)%nat; [apply parse_hyphenated_wf |].
  destruct (_ =? 32)%nat; [| discriminate].
  intros H. apply decode_at_wf in H as [Hlen Hall].
  unfold uuid.wf. rewrite Hlen, Hall. reflexivity.
Qed.


(** X14: whatever the text, [FromString] panics or returns exactly one of
    an [Id] and an error, and an [Id] it returns is sixteen bytes, the value
    [uuid.Parse] reads from the text; in [src/id/id.go] the error comes only
    for the empty text and the nil text, in [src/pkg/id/id.go] only for the
    empty text; a panic comes only where [uuid.Parse] reports an error. *)
Theorem FromString_returns_Id_or_error s :
  match id.FromString s with
  | Val (Some i, None) => uuid.wf i = true /\ uuid.Parse s = inl i
  | Val (None, Some msg) =>
      msg = "string s cannot be empty" /\ (s = "" \/ s = uuid.nil_text)
  | Val _ => False
  | Panic _ => exists e, uuid.Parse s = inr e
  end
  /\ match pkg_id.FromString s with
     | Val (Some i, None) => uuid.wf i = true /\ uuid.Parse s = inl i
     | Val (None, Some msg) => msg = "string s cannot be empty" /\ s = ""
     | Val _ => False
     | Panic _ => exists e, uuid.Parse s = inr e
     end.
Proof.
  split.
  - destruct (String.eqb_spec s "") as [-> | H1]; [simpl; auto |].
    destruct (String.eqb_spec s uuid.nil_text) as [-> | H2]; [simpl; auto |].
    rewrite (id_FromString_parsed s H1 H2).
    destruct (uuid.Parse s) as [i | e] eqn:Hp; [| now exists e].
    split; [now apply (Parse_wf s) | reflexivity].
  - destruct (String.eqb_spec s "") as [-> | H1]; [simpl; auto |].
    rewrite (pkg_id_FromString_parsed s H1).
    destruct (uuid.Parse s) as [i | e] eqn:Hp; [| now exists e].
    split; [now apply (Parse_wf s) | reflexivity].
Qed.



(** ** The text form *)

Lemma hex_digit_in b :
  uuid.is_byte b = true ->
  In (uuid.byte_at uuid.hextable (Z.to_nat (Z.shiftr b 4))) uuid.hex_digits
  /\ In (uuid.byte_at uuid.hextable (Z.to_nat (Z.land b 15))) uuid.hex_digits.
Proof.
  intros Hb.
  pose (P := fun b =>
    existsb (Ascii.eqb (uuid.byte_at uuid.hextable (Z.to_nat (Z.shiftr b 4))))
      uuid.hex_digits
    && existsb (Ascii.eqb (uuid.byte_at uuid.hextable (Z.to_nat (Z.land b 15))))
         uuid.hex_digits).
  assert (HP : P b = true)
    by (apply byte_cases; [vm_compute; reflexivity | exact Hb]).
  unfold P in HP. apply andb_prop in HP as [H1 H2].
  apply existsb_exists in H1 as (c1 & Hin1 & E1).
  apply existsb_exists in H2 as (c2 & Hin2 & E2).
  apply Ascii.eqb_eq in E1, E2. rewrite E1, E2. now split.
Qed.

(** X16: the text [ToString] gives for an [Id] of sixteen bytes is 36
    bytes long, has a dash at offsets 8, 13, 18 and 23, and a lower-case
    hexadecimal digit at every other offset; so it is never the empty
    text. *)
Theorem ToString_canonical_form (i : id.Id) :
  uuid.wf i = true ->
  String.length (id.ToString i) = 36%nat
  /\ pkg_id.ToString i = id.ToString i
  /\ (forall n, In n uuid.dash_positions ->
                String.get n (id.ToString i) = Some "-"%char)
  /\ (forall n c, String.get n (id.ToString i) = Some c ->
                  ~ In n uuid.dash_positions -> In c uuid.hex_digits).
Proof.
  intros Hwf. apply wf_sixteen in Hwf as (b0 & b1 & b2 & b3 & b4 & b5 & b6 & b7
    & b8 & b9 & b10 & b11 & b12 & b13 & b14 & b15 & -> & Hall).
  repeat match goal with
         | H : Forall _ (_ :: _) |- _ => apply Forall_cons in H as [? H]
         end.
  clear Hall.
  repeat match goal with
         | H : uuid.is_byte _ = true |- _ => apply hex_digit_in in H as [? ?]
         end.
  cbv [id.ToString pkg_id.ToString uuid.String uuid.slice firstn skipn Nat.sub
       uuid.hex_Encode String.append].
  split; [reflexivity |]. split; [reflexivity |]. split.
  - unfold uuid.dash_positions. intros n Hn. simpl in Hn.
    repeat (destruct Hn as [<- | Hn]; [reflexivity |]). contradiction.
  - intros n c Hget Hn. unfold uuid.dash_positions in Hn.
    do 36 (destruct n as [| n];
           [cbn [String.get] in Hget; injection Hget as <-;
            first [assumption | exfalso; apply Hn; simpl; tauto] |]).
    discriminate Hget.
Qed.

(** The hypothesis of X16 at the nil UUID. *)
Lemma ToString_canonical_form_witness :
  String.length (id.ToString uuid.Nil) = 36%nat.
Proof.
  exact (proj1 (ToString_canonical_form uuid.Nil eq_refl)).
Defined.

(** X17: for every [Id] of sixteen bytes, [uuid.Parse] reads [ToString]
    of it back to [ToUUID] of it; [FromString] of [src/pkg/id/id.go] returns
    the [Id] again; [FromString] of [src/id/id.go] returns it again unless it
    is the nil UUID, for which it returns the error. *)
Theorem FromString_ToString (i : id.Id) :
  uuid.wf i = true ->
  uuid.Parse (id.ToString i) = inl (id.ToUUID i)
  /\ pkg_id.FromString (pkg_id.ToString i) = Val (Some i, None)
  /\ (i <> uuid.Nil -> id.FromString (id.ToString i) = Val (Some i, None))
  /\ (i = uuid.Nil ->
      id.FromString (id.ToString i) = Val (None, Some "string s cannot be empty")).
Proof.
  intros Hwf. unfold id.ToString, pkg_id.ToString, id.ToUUID.
  split; [now apply Parse_String |].
  split.
  { rewrite pkg_id_FromString_parsed by apply String_not_empty.
    now rewrite Parse_String. }
  split.
  - intros Hne. rewrite id_FromString_parsed.
    + now rewrite Parse_String.
    + apply String_not_empty.
    + rewrite <- String_Nil. intros Heq. apply Hne.
      now apply String_inj; [| apply wf_Nil |].
  - intros ->. reflexivity.
Qed.

(** The hypothesis of X17 at an [Id] that is not version 4. *)
Lemma FromString_ToString_witness :
  id.FromString
    (id.ToString [0; 1; 2; 3; 4; 5; 6; 7; 8; 9; 10; 11; 12; 13; 14; 15])
  = Val (Some [0; 1; 2; 3; 4; 5; 6; 7; 8; 9; 10; 11; 12; 13; 14; 15], None).
Proof.
  apply (FromString_ToString
           [0; 1; 2; 3; 4; 5; 6; 7; 8; 9; 10; 11; 12; 13; 14; 15] eq_refl).
  discriminate.
Defined.

(** X18: [ToString] is injective on [Id]s of sixteen bytes: two of them
    have the same text only if they have the same bytes. *)
Theorem ToString_injective (i1 i2 : id.Id) :
  uuid.wf i1 = true -> uuid.wf i2 = true ->
  id.ToString i1 = id.ToString i2 -> i1 = i2.
Proof. intros H1 H2. unfold id.ToString. now apply String_inj. Qed.

(** The hypotheses of X18 at the nil UUID twice. *)
Lemma ToString_injective_witness :
  uuid.Nil = pkg_id.NewId.
Proof.
  exact (ToString_injective uuid.Nil pkg_id.NewId eq_refl eq_refl eq_refl).
Defined.

(** ** Fresh identifiers *)

Lemma version_bits b :
  uuid.is_byte b = true ->
  Z.shiftr (Z.lor (Z.land b 15) 64) 4 = 4
  /\ Z.shiftr (Z.lor (Z.land b 63) 128) 6 = 2
  /\ uuid.byte_at uuid.hextable
       (Z.to_nat (Z.shiftr (Z.lor (Z.land b 15) 64) 4)) = "4"%char.
Proof.
  intros Hb.
  pose (P := fun b =>
    (Z.shiftr (Z.lor (Z.land b 15) 64) 4 =? 4)
    && (Z.shiftr (Z.lor (Z.land b 63) 128) 6 =? 2)).
  assert (HP : P b = true)
    by (apply byte_cases; [vm_compute; reflexivity | exact Hb]).
  unfold P in HP. apply andb_prop in HP as [H1 H2].
  apply Z.eqb_eq in H1, H2. rewrite H1, H2. repeat split.
Qed.

(** X19: from any sixteen random bytes, [NewId] of [src/id/id.go] makes an
    [Id] of sixteen bytes that is not the nil UUID, whose byte 6 has the
    version nibble 4 and whose byte 8 has the variant bits 10; the fourteen
    other bytes are the random ones, and the text has the digit 4 at
    offset 14. *)
Theorem NewId_is_version_4 (rnd : list Z) :
  uuid.wf rnd = true ->
  uuid.wf (id.NewId rnd) = true
  /\ id.NewId rnd <> uuid.Nil
  /\ Z.shiftr (nth 6 (id.NewId rnd) 0) 4 = 4
  /\ Z.shiftr (nth 8 (id.NewId rnd) 0) 6 = 2
  /\ (forall n, n <> 6%nat -> n <> 8%nat ->
                nth n (id.NewId rnd) 0 = nth n rnd 0)
  /\ String.get 14 (id.ToString (id.NewId rnd)) = Some "4"%char.
Proof.
  intros Hwf. unfold id.NewId, id.ToString.
  destruct (wf_New rnd Hwf) as [Hnew Hne].
  split; [exact Hnew |]. split; [exact Hne |]. clear Hnew Hne.
  apply wf_sixteen in Hwf as (b0 & b1 & b2 & b3 & b4 & b5 & b6 & b7
    & b8 & b9 & b10 & b11 & b12 & b13 & b14 & b15 & -> & Hall).
  repeat match goal with
         | H : Forall _ (_ :: _) |- _ => apply Forall_cons in H as [? H]
         end.
  clear Hall.
  change (uuid.New [b0; b1; b2; b3; b4; b5; b6; b7; b8; b9; b10; b11; b12;
                    b13; b14; b15])
    with [b0; b1; b2; b3; b4; b5; Z.lor (Z.land b6 15) 64; b7;
          Z.lor (Z.land b8 63) 128; b9; b10; b11; b12; b13; b14; b15].
  destruct (version_bits b6) as (V6 & _ & T6); [assumption |].
  destruct (version_bits b8) as (_ & V8 & _); [assumption |].
  split; [exact V6 |]. split; [exact V8 |]. split.
  - intros n Hn6 Hn8.
    do 16 (destruct n as [| n]; [first [reflexivity | contradiction] |]).
    reflexivity.
  - cbv [uuid.String uuid.slice firstn skipn Nat.sub uuid.hex_Encode
         String.append String.get].
    now rewrite T6.
Qed.

(** The hypothesis of X19 at sixteen bytes all 255. *)
Lemma NewId_is_version_4_witness :
  id.NewId (repeat 255 16)
  = [255; 255; 255; 255; 255; 255; 79; 255;
     191; 255; 255; 255; 255; 255; 255; 255]
  /\ uuid.wf (id.NewId (repeat 255 16)) = true.
Proof.
  split; [reflexivity |].
  exact (proj1 (NewId_is_version_4 (repeat 255 16) eq_refl)).
Defined.

(** ** The other text forms [uuid.Parse] reads *)

Local Ltac sixteen_bytes Hwf :=
  apply wf_sixteen in Hwf as (?b & ?b & ?b & ?b & ?b & ?b & ?b & ?b
    & ?b & ?b & ?b & ?b & ?b & ?b & ?b & ?b & -> & Hwf);
  repeat match goal with
         | H : Forall _ (_ :: _) |- _ => apply Forall_cons in H as [? H]
         end;
  clear Hwf.

Local Ltac parse_digits :=
  repeat match goal with
         | |- context [uuid.byte_at uuid.hextable ?n] =>
             let h := fresh "h" in
             let E := fresh "E" in
             remember (uuid.byte_at uuid.hextable n) as h eqn:E
         end;
  cbv -[uuid.xtob]; subst;
  repeat (rewrite xtob_hex by assumption; cbv beta iota).

Lemma Parse_other_forms u :
  uuid.wf u = true ->
  uuid.Parse (uuid.urn_form u) = inl u
  /\ uuid.Parse (uuid.brace_form u) = inl u
  /\ uuid.Parse (uuid.raw_form u) = inl u.
Proof.
  intros Hwf. sixteen_bytes Hwf.
  cbv [uuid.urn_form uuid.brace_form uuid.raw_form uuid.String uuid.slice firstn skipn
       Nat.sub uuid.hex_Encode String.append].
  repeat split; parse_digits; reflexivity.
Qed.

Lemma other_forms_length u :
  uuid.wf u = true ->
  String.length (uuid.urn_form u) = 45%nat
  /\ String.length (uuid.brace_form u) = 38%nat
  /\ String.length (uuid.raw_form u) = 32%nat.
Proof.
  intros Hwf. sixteen_bytes Hwf. repeat split.
Qed.

Lemma FromString_of_parsed s u :
  uuid.Parse s = inl u ->
  String.length s <> 36%nat ->
  id.FromString s = Val (Some u, None)
  /\ pkg_id.FromString s = Val (Some u, None).
Proof.
  intros Hp Hlen.
  assert (H1 : s <> "") by (intros ->; discriminate Hp).
  assert (H2 : s <> uuid.nil_text) by (intros ->; now apply Hlen).
  rewrite (id_FromString_parsed s H1 H2), (pkg_id_FromString_parsed s H1).
  now rewrite Hp.
Qed.

(** X20: for every UUID [u] of sixteen bytes, the nil UUID included,
    [FromString] of either package returns [u] with a nil error on its
    [urn:uuid:] form, on its form in braces and on its 32 digit form: the
    nil test of [src/id/id.go] compares with the 36 byte text only. *)
Theorem FromString_other_forms u :
  uuid.wf u = true ->
  Forall (fun s => id.FromString s = Val (Some u, None)
                   /\ pkg_id.FromString s = Val (Some u, None))
    [uuid.urn_form u; uuid.brace_form u; uuid.raw_form u].
Proof.
  intros Hwf.
  destruct (Parse_other_forms u Hwf) as (P1 & P2 & P3).
  destruct (other_forms_length u Hwf) as (L1 & L2 & L3).
  repeat constructor;
    apply FromString_of_parsed; first [assumption | congruence].
Qed.

(** The hypothesis of X20 at the nil UUID. *)
Lemma FromString_other_forms_witness :
  id.FromString "urn:uuid:00000000-0000-0000-0000-000000000000"
  = Val (Some uuid.Nil, None).
Proof.
  exact (proj1 (Forall_inv (FromString_other_forms uuid.Nil eq_refl))).
Defined.

End id_more.



